(** * ts-option: the Option container and its combinators

    A shallow embedding of [src/option.ts], [src/guards.ts],
    [src/transformations.ts], [src/unwrapping.ts], [src/from.ts] and
    [src/OptionError.ts].

    Option containers are JavaScript objects: they live in a store and are
    handed around by reference, so that "the same instance" means "the same
    address".  Functions supplied by the caller run on the store, may change
    the caller's own state and may throw; every invocation the library makes
    of such a function is recorded in a trace, so that "is not invoked" and
    "is invoked exactly once" are statements about that trace. *)

From Stdlib Require Import ZArith String List.
From stdpp Require Import base list strings.
Import ListNotations.

Local Open Scope string_scope.
Local Open Scope list_scope.

(** ** Values and objects *)

(** Addresses of objects in the store. *)
Definition loc := nat.

(** The JavaScript values the library is handed as payloads.  Numbers are
    the integer-valued ones; the two-element array [[a, b]] of type
    [[T, U]] is kept as the pair of its elements; an Option container is the
    address of its object. *)
Inductive value : Type :=
| VUndefined
| VNull
| VBool (b : bool)
| VNum (n : Z)
| VStr (s : string)
| VTuple (a b : value)
| VObj (l : loc).

(** [interface Some<T> { readonly kind: 'some'; value: T }] and
    [interface None { readonly kind: 'none' }]. *)
Inductive object : Type :=
| SomeObj (value : value)
| NoneObj.

(** The discriminant field [kind] of an Option object. *)
Definition kind (o : object) : string :=
  match o with
  | SomeObj _ => "some"
  | NoneObj => "none"
  end.

(** The field [value]; reading it from an object without it gives
    [undefined]. *)
Definition value_of (o : object) : value :=
  match o with
  | SomeObj v => v
  | NoneObj => VUndefined
  end.

(** [value === null] and [value === undefined]. *)
Definition is_null (v : value) : bool :=
  match v with VNull => true | _ => false end.

Definition is_undefined (v : value) : bool :=
  match v with VUndefined => true | _ => false end.

(** ** Errors *)

(** A thrown [Error] object: its [name] and its [message]. *)
Record error : Type := Error { name : string; message : string }.

(** The error of reading a property of something that is not an object. *)
Definition TypeError : error :=
  {| name := "TypeError"; message := "Cannot read properties of undefined" |}.

(** [class OptionError extends Error]:
    [constructor(message: string = 'Attempted to unwrap a None value')]
    calls [super(message)] and sets [this.name = 'OptionError'].  An omitted
    (undefined) argument is [None]. *)
Definition default_message : string := "Attempted to unwrap a None value".

Definition OptionError (msg : option string) : error :=
  let message := match msg with Some m => m | None => default_message end in
  {| name := "OptionError"; message := message |}.

(** A computation either returns or throws. *)
Inductive outcome (A : Type) : Type :=
| Ret (a : A)
| Throw (e : error).
Arguments Ret {A} a.
Arguments Throw {A} e.

(** One invocation of a function supplied by the caller: the name of the
    parameter it was passed as, and the arguments it was applied to. *)
Inductive event : Type :=
| Call (param : string) (args : list value).

Section Library.

(** The caller's own mutable state, whatever it is. *)
Context {U : Type}.

(** ** The store and the two layers of code *)

Record store : Type := Store { heap : list object; user : U }.

(** Code supplied by the caller: runs on the store, returns or throws. *)
Definition code (A : Type) : Type := store -> outcome A * store.

(** What running a library operation gives: its outcome, the store it
    leaves, and the calls it made to caller-supplied functions, in order. *)
Record run (A : Type) : Type :=
  Run { result : outcome A; final : store; trace : list event }.
Arguments Run {A} result final trace.
Arguments result {A} r.
Arguments final {A} r.
Arguments trace {A} r.

(** Library code. *)
Definition M (A : Type) : Type := store -> run A.

Definition ret {A} (a : A) : M A := fun s => Run (Ret a) s [].

Definition throw {A} (e : error) : M A := fun s => Run (Throw e) s [].

Definition bind {A B} (m : M A) (k : A -> M B) : M B := fun s =>
  let r := m s in
  match result r with
  | Ret a =>
      let r' := k a (final r) in
      Run (result r') (final r') (trace r ++ trace r')
  | Throw e => Run (Throw e) (final r) (trace r)
  end.

Notation "x <- m ;; k" := (bind m (fun x => k))
  (at level 100, m at next level, right associativity).

(** An object literal: a new object at the next free address. *)
Definition alloc (o : object) : M loc := fun s =>
  Run (Ret (length (heap s))) (Store (heap s ++ [o]) (user s)) [].

(** Reading the object a reference points to. *)
Definition deref (l : loc) : M object := fun s =>
  match heap s !! l with
  | Some o => Run (Ret o) s []
  | None => Run (Throw TypeError) s []
  end.

(** [option.kind] and [option.value]. *)
Definition get_kind (option : loc) : M string :=
  o <- deref option ;; ret (kind o).

Definition get_value (option : loc) : M value :=
  o <- deref option ;; ret (value_of o).

(** Calling the caller-supplied function passed as parameter [param],
    applied to [args]. *)
Definition call {A} (param : string) (args : list value) (f : code A) : M A :=
  fun s => let (r, s') := f s in Run r s' [Call param args].

(** ** option.ts *)

(** [const NONE: None = { kind: 'none' }], evaluated once when the module
    is loaded, into an empty store: the object sits at address 0. *)
Definition NONE : loc := 0.

Definition module_init : M loc := alloc NoneObj.

(** A store in which the module has been loaded. *)
Definition loaded (s : store) : Prop := heap s !! NONE = Some NoneObj.

(** [function some<T>(value: T): Some<T> { return { kind: 'some', value }; }] *)
Definition some (value : value) : M loc := alloc (SomeObj value).

(** [function none(): None { return NONE; }] *)
Definition none : M loc := ret NONE.

(** ** guards.ts *)

(** [return option.kind === 'some';] *)
Definition isSome (option : loc) : M bool :=
  k <- get_kind option ;; ret (String.eqb k "some").

(** [return option.kind === 'none';] *)
Definition isNone (option : loc) : M bool :=
  k <- get_kind option ;; ret (String.eqb k "none").

(** ** transformations.ts *)

(** [a && b]: [b] is evaluated only when [a] is true. *)
Definition andalso (a b : M bool) : M bool :=
  x <- a ;; if x then b else ret false.

(** [if (isSome(option)) {
       if (predicate(option.value)) { return option; }
       else { return none(); }
     } else { return none(); }] *)
Definition filter (option : loc) (predicate : value -> code bool) : M loc :=
  b <- isSome option ;;
  if b then
    v <- get_value option ;;
    p <- call "predicate" [v] (predicate v) ;;
    if p then ret option else none
  else none.

(** [return isSome(option) ? some(fn(option.value)) : none();] *)
Definition map (option : loc) (fn : value -> code value) : M loc :=
  b <- isSome option ;;
  if b then
    v <- get_value option ;;
    r <- call "fn" [v] (fn v) ;;
    some r
  else none.

(** [return isSome(option) ? fn(option.value) : none();] *)
Definition flatMap (option : loc) (fn : value -> code loc) : M loc :=
  b <- isSome option ;;
  if b then
    v <- get_value option ;;
    call "fn" [v] (fn v)
  else none.

(** [if (isSome(option1) && isSome(option2)) {
       return some(fn(option1.value, option2.value));
     } else { return none(); }] *)
Definition liftA2 (fn : value -> value -> code value) (option1 option2 : loc)
  : M loc :=
  b <- andalso (isSome option1) (isSome option2) ;;
  if b then
    v1 <- get_value option1 ;;
    v2 <- get_value option2 ;;
    r <- call "fn" [v1; v2] (fn v1 v2) ;;
    some r
  else none.

(** [return isSome(option) ? onSome(option.value) : onNone();] *)
Definition matchOption (option : loc) (onSome : value -> code loc)
    (onNone : code loc) : M loc :=
  b <- isSome option ;;
  if b then
    v <- get_value option ;;
    call "onSome" [v] (onSome v)
  else call "onNone" [] onNone.

(** [if (isSome(option1) && isSome(option2)) {
       return some([option1.value, option2.value]);
     } else { return none(); }] *)
Definition and (option1 option2 : loc) : M loc :=
  b <- andalso (isSome option1) (isSome option2) ;;
  if b then
    v1 <- get_value option1 ;;
    v2 <- get_value option2 ;;
    some (VTuple v1 v2)
  else none.

(** [return isSome(option1) ? option1 : option2;] *)
Definition or (option1 option2 : loc) : M loc :=
  b <- isSome option1 ;;
  if b then ret option1 else ret option2.

(** ** unwrapping.ts *)

(** [return isSome(option) ? option.value : defaultValue;] *)
Definition unwrapOr (option : loc) (defaultValue : value) : M value :=
  b <- isSome option ;;
  if b then get_value option else ret defaultValue.

(** [if (isSome(option)) { return option.value; }
     throw new OptionError(message);]
    where [message] is [None] when the caller leaves it out. *)
Definition unwrap (option : loc) (message : Datatypes.option string)
  : M value :=
  b <- isSome option ;;
  if b then get_value option else throw (OptionError message).

(** [return isSome(option) ? option : alternative();] *)
Definition OrElse (option : loc) (alternative : code loc) : M loc :=
  b <- isSome option ;;
  if b then ret option else call "alternative" [] alternative.

(** ** from.ts *)

(** [return value === null || value === undefined ? none() : some(value);] *)
Definition fromNullable (value : value) : M loc :=
  if is_null value || is_undefined value then none else some value.

(** ** Vocabulary of the statements *)

(** The run ends in a [return]. *)
Definition returns {A} (r : run A) : Prop := exists a, result r = Ret a.

(** The reference points to an object of the store. *)
Definition allocated (s : store) (o : loc) : Prop := is_Some (heap s !! o).

(** Caller code that never throws. *)
Definition no_throw {A} (f : code A) : Prop :=
  forall s, exists a, (f s).1 = Ret a.

(** The value is the absence sentinel: [null] or [undefined]. *)
Definition nullish (v : value) : Prop := v = VNull \/ v = VUndefined.

(** The store [s'] still holds every object of [s], unchanged. *)
Definition keeps (s s' : store) : Prop := heap s `prefix_of` heap s'.

(** Caller code that leaves the existing objects as they are. *)
Definition framed {A} (f : code A) : Prop := forall s, keeps s (f s).2.

(** A caller function that works on the caller's own state only. *)
Definition on_user {A} (f : U -> outcome A * U) : code A :=
  fun s => let (r, u) := f (user s) in (r, Store (heap s) u).

(** [x => g(f(x))]. *)
Definition composition (f g : value -> U -> outcome value * U)
  : value -> U -> outcome value * U :=
  fun x u =>
    match f x u with
    | (Ret y, u') => g y u'
    | (Throw e, u') => (Throw e, u')
    end.

(** What a caller can tell about the run of an operation that returns an
    Option: the error thrown, or the object the returned reference points
    to; and the caller's state afterwards. *)
Definition observe (r : run loc) : outcome (Datatypes.option object) * U :=
  (match result r with
   | Ret l => Ret (heap (final r) !! l)
   | Throw e => Throw e
   end, user (final r)).

(** [(a, b) => [a, b]]. *)
Definition pairing : value -> value -> code value :=
  fun a b s => (Ret (VTuple a b), s).

(** The pairing specialisation of [liftA2], to be compared with [and]. *)
Definition and_via_liftA2 (option1 option2 : loc) : M loc :=
  liftA2 pairing option1 option2.

(** Caller code that calls a library operation. *)
Definition plain {A} (m : M A) : code A :=
  fun s => let r := m s in (result r, final r).

(** ** Sample stores and callers *)

(** The store after [some(5)] and [some(7)]: NONE at 0, the Somes at 1
    and 2. *)
Definition sample (u : U) : store :=
  Store [NoneObj; SomeObj (VNum 5); SomeObj (VNum 7)] u.

(** [x => x > 0] and [x => x < 0]. *)
Definition positive : value -> code bool := fun x s =>
  (Ret (match x with VNum n => (0 <? n)%Z | _ => false end), s).

Definition negative : value -> code bool := fun x s =>
  (Ret (match x with VNum n => (n <? 0)%Z | _ => false end), s).

(** [x => x * 2] and [x => x + 1], on the caller's state and on the
    store. *)
Definition double : value -> U -> outcome value * U := fun x u =>
  (Ret (match x with VNum n => VNum (n * 2) | _ => x end), u).

Definition succ : value -> U -> outcome value * U := fun x u =>
  (Ret (match x with VNum n => VNum (n + 1) | _ => x end), u).

Definition doubled : value -> code value := fun x => on_user (double x).

(** [(a, b) => a + b]. *)
Definition plus : value -> value -> code value := fun a b s =>
  (Ret (match a, b with VNum n, VNum m => VNum (n + m) | _, _ => a end), s).

(** [x => some(x)], [() => some(10)] and [() => none()]. *)
Definition wrap : value -> code loc := fun x => plain (some x).

Definition ten : code loc := plain (some (VNum 10)).

Definition nothing : code loc := plain none.

(** ** Caller functions built from the library *)

(** Caller code in sequence: [c], then [k] on what [c] returned; an
    exception of [c] ends the sequence. *)
Definition and_then {A B} (c : code A) (k : A -> code B) : code B := fun s =>
  match c s with
  | (Ret a, s') => k a s'
  | (Throw e, s') => (Throw e, s')
  end.

(** [x => x]. *)
Definition identity : value -> code value := fun x s => (Ret x, s).

(** [() => option2]. *)
Definition always (option2 : loc) : code loc := fun s => (Ret option2, s).

(** [x => some(fn(x))]. *)
Definition some_of (fn : value -> code value) : value -> code loc :=
  fun x => and_then (fn x) (fun y => plain (some y)).

(** [x => flatMap(f(x), g)]. *)
Definition chained (f g : value -> code loc) : value -> code loc :=
  fun x => and_then (f x) (fun o => plain (flatMap o g)).

(** [x => p(x) && q(x)]. *)
Definition both (p q : value -> code bool) : value -> code bool :=
  fun x =>
    and_then (p x) (fun b => if b then q x else fun s => (Ret false, s)).

(** ** Addresses as caller code sees them *)

(** A reference is only ever followed or compared: code cannot tell one
    address from another.  When one more object sits at address [n], the
    objects at [n] and above are found one address further. *)
Definition rename (n : loc) (l : loc) : loc :=
  if (n <=? l)%nat then S l else l.

Fixpoint rename_value (n : loc) (v : value) : value :=
  match v with
  | VObj l => VObj (rename n l)
  | VTuple a b => VTuple (rename_value n a) (rename_value n b)
  | _ => v
  end.

Definition rename_object (n : loc) (o : object) : object :=
  match o with
  | SomeObj v => SomeObj (rename_value n v)
  | NoneObj => NoneObj
  end.

Definition rename_outcome (n : loc) (r : outcome value) : outcome value :=
  match r with
  | Ret v => Ret (rename_value n v)
  | Throw e => Throw e
  end.


(** The heap [h] with the object [ob] put in at address [n]: the objects
    keep their order and their contents, every reference following the
    object it pointed to. *)
Definition insert_object (n : loc) (ob : object) (h : list object)
  : list object :=
  (rename_object n <$> take n h) ++ ob :: (rename_object n <$> drop n h).

(** Every reference in the value points below [n]. *)
Fixpoint scoped_value (n : nat) (v : value) : Prop :=
  match v with
  | VObj l => l < n
  | VTuple a b => scoped_value n a /\ scoped_value n b
  | _ => True
  end.

Definition scoped_object (n : nat) (o : object) : Prop :=
  match o with
  | SomeObj v => scoped_value n v
  | NoneObj => True
  end.

(** No object of the store holds a reference to an address that holds
    nothing: a reference always comes from an object that was made. *)
Definition well_scoped (s : store) : Prop :=
  Forall (scoped_object (length (heap s))) (heap s).


(** Caller code that reaches objects through references only.  An object
    [ob] that nothing refers to, at the end of the store, is out of its
    reach: the code runs as it does without [ob], frees nothing, and what
    it makes lands one address further. *)
Definition address_blind (g : value -> code value) : Prop :=
  forall x s ob,
    well_scoped s -> scoped_value (length (heap s)) x ->
    length (heap s) <= length (heap (g x s).2) /\
    g x (Store (heap s ++ [ob]) (user s))
    = (rename_outcome (length (heap s)) (g x s).1,
       Store (insert_object (length (heap s)) ob (heap (g x s).2))
         (user (g x s).2)).



(** [x => unwrapOr(x, null)], for [x] an Option; any other value is
    handed back. *)
Definition opened : value -> code value := fun x =>
  match x with
  | VObj l => plain (unwrapOr l VNull)
  | _ => fun s => (Ret x, s)
  end.

(** ** Running the primitives *)

Ltac unfold_lib :=
  unfold OrElse, unwrap, unwrapOr, fromNullable, or, and, matchOption,
    liftA2, flatMap, map, filter, andalso, isNone, isSome, some, none,
    get_kind, get_value, alloc, deref, call, bind, ret, throw in *.

Ltac exec :=
  unfold_lib; simpl;
  repeat match goal with
    | H : heap ?s !! ?o = _ |- context [heap ?s !! ?o] => rewrite H; simpl
    | H : ?f = (_, _) |- context [?f] => rewrite H; simpl
    end.

(** Running a sequence one step at a time: the first computation is run
    before the rest is looked at. *)
Lemma bind_unfold {A B} (m : M A) (k : A -> M B) (s : store) :
  bind m k s
  = match m s with
    | Run (Ret a) s' t =>
        match k a s' with Run r s'' t' => Run r s'' (t ++ t') end
    | Run (Throw e) s' t => Run (Throw e) s' t
    end.
Proof.
  unfold bind. destruct (m s) as [[a|e] s' t]; simpl;
    [destruct (k a s')|]; reflexivity.
Qed.

Ltac unfold_ops :=
  unfold OrElse, unwrap, unwrapOr, fromNullable, or, and, matchOption,
    liftA2, flatMap, map, filter, andalso, isNone, isSome, some, none,
    get_kind, get_value, alloc, deref, call, ret, throw.

Ltac steps :=
  unfold_ops;
  repeat first
    [ rewrite bind_unfold
    | progress simpl
    | match goal with
      | H : heap ?s !! ?o = _ |- context [heap ?s !! ?o] => rewrite H
      | H : ?f = (_, _) |- context [?f] => rewrite H
      end ].

Lemma isSome_run (s : store) (o : loc) (ob : object) :
  heap s !! o = Some ob ->
  isSome o s = Run (Ret (String.eqb (kind ob) "some")) s [].
Proof. intros H. exec. reflexivity. Qed.

Lemma isNone_run (s : store) (o : loc) (ob : object) :
  heap s !! o = Some ob ->
  isNone o s = Run (Ret (String.eqb (kind ob) "none")) s [].
Proof. intros H. exec. reflexivity. Qed.

Lemma no_throw_run {A} (f : code A) (s : store) :
  no_throw f -> exists a s', f s = (Ret a, s').
Proof.
  intros H. destruct (H s) as [a Ha]. destruct (f s) as [r s'] eqn:E.
  simpl in Ha. subst r. eauto.
Qed.

(** ** What each operation returns *)

Lemma some_returns (s : store) (v : value) : returns (some v s).
Proof. eexists. reflexivity. Qed.

Lemma none_returns (s : store) : returns (none s).
Proof. eexists. reflexivity. Qed.

Lemma fromNullable_returns (s : store) (v : value) :
  returns (fromNullable v s).
Proof.
  unfold fromNullable.
  destruct (is_null v || is_undefined v); eexists; reflexivity.
Qed.

Section Allocated.

Variables (s : store) (option : loc).
Hypothesis Hopt : allocated s option.

Lemma isSome_returns : returns (isSome option s).
Proof. destruct Hopt as [ob H]. rewrite (isSome_run _ _ _ H). eexists. reflexivity. Qed.

Lemma isNone_returns : returns (isNone option s).
Proof. destruct Hopt as [ob H]. rewrite (isNone_run _ _ _ H). eexists. reflexivity. Qed.

Lemma unwrapOr_returns (d : value) : returns (unwrapOr option d s).
Proof. destruct Hopt as [[v|] H]; exec; eexists; reflexivity. Qed.

Lemma or_returns (option2 : loc) : returns (or option option2 s).
Proof. destruct Hopt as [[v|] H]; exec; eexists; reflexivity. Qed.

Lemma and_returns (option2 : loc) :
  allocated s option2 -> returns (and option option2 s).
Proof.
  intros [ob2 H2]. destruct Hopt as [[v|] H]; steps;
    [destruct ob2; steps|]; eexists; reflexivity.
Qed.

Lemma filter_returns (predicate : value -> code bool) :
  (forall x, no_throw (predicate x)) -> returns (filter option predicate s).
Proof.
  intros Hp. destruct Hopt as [[v|] H]; exec.
  - destruct (no_throw_run _ s (Hp v)) as ([|] & s' & E); exec;
      eexists; reflexivity.
  - eexists; reflexivity.
Qed.

Lemma map_returns (fn : value -> code value) :
  (forall x, no_throw (fn x)) -> returns (map option fn s).
Proof.
  intros Hf. destruct Hopt as [[v|] H]; exec.
  - destruct (no_throw_run _ s (Hf v)) as (r & s' & E); exec.
    eexists; reflexivity.
  - eexists; reflexivity.
Qed.

Lemma flatMap_returns (fn : value -> code loc) :
  (forall x, no_throw (fn x)) -> returns (flatMap option fn s).
Proof.
  intros Hf. destruct Hopt as [[v|] H]; exec.
  - destruct (no_throw_run _ s (Hf v)) as (r & s' & E); exec.
    eexists; reflexivity.
  - eexists; reflexivity.
Qed.

Lemma liftA2_returns (fn : value -> value -> code value) (option2 : loc) :
  allocated s option2 -> (forall x y, no_throw (fn x y)) ->
  returns (liftA2 fn option option2 s).
Proof.
  intros [ob2 H2] Hf. destruct Hopt as [[v|] H]; steps.
  - destruct ob2 as [v2|]; steps.
    + destruct (no_throw_run _ s (Hf v v2)) as (r & s' & E); steps.
      eexists; reflexivity.
    + eexists; reflexivity.
  - eexists; reflexivity.
Qed.

Lemma matchOption_returns (onSome : value -> code loc) (onNone : code loc) :
  (forall x, no_throw (onSome x)) -> no_throw onNone ->
  returns (matchOption option onSome onNone s).
Proof.
  intros Hs Hn. destruct Hopt as [[v|] H]; exec.
  - destruct (no_throw_run _ s (Hs v)) as (r & s' & E); exec.
    eexists; reflexivity.
  - destruct (no_throw_run _ s Hn) as (r & s' & E); exec.
    eexists; reflexivity.
Qed.

Lemma OrElse_returns (alternative : code loc) :
  no_throw alternative -> returns (OrElse option alternative s).
Proof.
  intros Hn. destruct Hopt as [[v|] H]; exec.
  - eexists; reflexivity.
  - destruct (no_throw_run _ s Hn) as (r & s' & E); exec.
    eexists; reflexivity.
Qed.

End Allocated.

(** ** unwrap and OptionError *)

(** C1.  [unwrap] of a Some holding [v] returns [v], whatever message is
    passed.  [unwrap] of a None throws an OptionError: with the caller's
    message when one is passed, with the default message of the
    constructor when none is.  Every other operation of the library, applied
    to Option containers of the store and to caller functions that do not
    throw, returns: [unwrap] is the only one that raises. *)
Theorem unwrap_only_partial_operation
    (s : store) (option option2 : loc)
    (predicate : value -> code bool)
    (fn : value -> code value)
    (fnOpt onSome : value -> code loc)
    (fn2 : value -> value -> code value)
    (onNone alternative : code loc)
    (Hoption : allocated s option)
    (Hoption2 : allocated s option2)
    (Hpredicate : forall x, no_throw (predicate x))
    (Hfn : forall x, no_throw (fn x))
    (HfnOpt : forall x, no_throw (fnOpt x))
    (HonSome : forall x, no_throw (onSome x))
    (Hfn2 : forall x y, no_throw (fn2 x y))
    (HonNone : no_throw onNone)
    (Halternative : no_throw alternative) :
  (forall v msg, heap s !! option = Some (SomeObj v) ->
     unwrap option msg s = Run (Ret v) s []) /\
  (forall m, heap s !! option = Some NoneObj ->
     unwrap option (Some m) s
     = Run (Throw {| name := "OptionError"; message := m |}) s []) /\
  (heap s !! option = Some NoneObj ->
     unwrap option None s
     = Run (Throw {| name := "OptionError"; message := default_message |})
         s []) /\
  (forall v, returns (some v s)) /\
  returns (none s) /\
  returns (isSome option s) /\
  returns (isNone option s) /\
  returns (map option fn s) /\
  returns (flatMap option fnOpt s) /\
  returns (filter option predicate s) /\
  returns (liftA2 fn2 option option2 s) /\
  returns (matchOption option onSome onNone s) /\
  returns (and option option2 s) /\
  returns (or option option2 s) /\
  (forall d, returns (unwrapOr option d s)) /\
  returns (OrElse option alternative s) /\
  (forall v, returns (fromNullable v s)).
Proof.
  split; [intros v msg H; exec; reflexivity|].
  split; [intros m H; exec; reflexivity|].
  split; [intros H; exec; reflexivity|].
  repeat split;
    auto using some_returns, none_returns, isSome_returns, isNone_returns,
      map_returns, flatMap_returns, filter_returns, liftA2_returns,
      matchOption_returns, and_returns, or_returns, unwrapOr_returns,
      OrElse_returns, fromNullable_returns.
Qed.

(** C2, as the code has it.  [unwrap] of a None without a message throws
    an OptionError whose text is "Attempted to unwrap a None value". *)
Theorem unwrap_default_message (s : store) (option : loc)
    (Hnone : heap s !! option = Some NoneObj) :
  exists e, unwrap option None s = Run (Throw e) s [] /\
    name e = "OptionError" /\
    message e = "Attempted to unwrap a None value".
Proof. eexists. exec. repeat split. Qed.

(** ** fromNullable *)

Lemma nullish_test (v : value) :
  is_null v || is_undefined v = true <-> nullish v.
Proof.
  unfold nullish. destruct v; simpl; split; intros H;
    try discriminate; auto; destruct H; discriminate.
Qed.

Lemma fromNullable_present (s : store) (v : value) :
  ~ nullish v ->
  fromNullable v s
  = Run (Ret (length (heap s))) (Store (heap s ++ [SomeObj v]) (user s)) [].
Proof.
  intros H. unfold fromNullable.
  destruct (is_null v || is_undefined v) eqn:E; [|reflexivity].
  apply nullish_test in E. contradiction.
Qed.

Lemma lookup_fresh (h : list object) (o : object) :
  (h ++ [o]) !! length h = Some o.
Proof. rewrite lookup_app_r by lia. by rewrite Nat.sub_diag. Qed.

(** C3.  In a store where the module is loaded, [fromNullable] returns a
    reference to a None object exactly when its argument is [null] or
    [undefined] (and then it is the shared NONE, the store left as it
    was); for every other argument it returns a Some holding that very
    argument.  Zero, the empty string and [false] are among the others. *)
Theorem fromNullable_spec (s : store) (Hs : loaded s) :
  (forall v, exists l,
     result (fromNullable v s) = Ret l /\
     trace (fromNullable v s) = [] /\
     (heap (final (fromNullable v s)) !! l = Some NoneObj <-> nullish v) /\
     (nullish v -> l = NONE /\ final (fromNullable v s) = s) /\
     (~ nullish v ->
        heap (final (fromNullable v s)) !! l = Some (SomeObj v))) /\
  (forall v, In v [VNum 0; VStr EmptyString; VBool false] ->
     exists l, result (fromNullable v s) = Ret l /\
       heap (final (fromNullable v s)) !! l = Some (SomeObj v)).
Proof.
  assert (forall v, ~ nullish v -> exists l,
     result (fromNullable v s) = Ret l /\
     heap (final (fromNullable v s)) !! l = Some (SomeObj v)) as Hpresent.
  { intros v Hv. rewrite (fromNullable_present _ _ Hv). simpl.
    eexists. split; [reflexivity|]. apply lookup_fresh. }
  split.
  - intros v. destruct (is_null v || is_undefined v) eqn:E.
    + assert (nullish v) as Hv by (by apply nullish_test).
      exists NONE. unfold fromNullable. rewrite E. simpl.
      repeat split; auto. contradiction.
    + assert (~ nullish v) as Hv.
      { intros Hv. apply nullish_test in Hv. congruence. }
      destruct (Hpresent v Hv) as (l & Hl & Hobj). exists l.
      rewrite (fromNullable_present _ _ Hv) in *. simpl in *.
      repeat split; auto; try contradiction.
      rewrite Hobj. discriminate.
  - intros v Hin. apply Hpresent. unfold nullish.
    simpl in Hin. intuition (subst; discriminate).
Qed.

(** ** filter *)

(** C4.  On a Some holding [v], [filter] calls the predicate once, on [v]:
    when the predicate answers true the result is the reference it was
    given, the same object and no new one (the store is the one the
    predicate left); when it answers false the result is NONE.  On a None
    the result is NONE, the store is untouched and the predicate is not
    called. *)
Theorem filter_spec (s : store) (option : loc) (ob : object)
    (predicate : value -> code bool)
    (Hoption : heap s !! option = Some ob) :
  (forall v s', ob = SomeObj v -> predicate v s = (Ret true, s') ->
     filter option predicate s
     = Run (Ret option) s' [Call "predicate" [v]]) /\
  (forall v s', ob = SomeObj v -> predicate v s = (Ret false, s') ->
     filter option predicate s
     = Run (Ret NONE) s' [Call "predicate" [v]]) /\
  (ob = NoneObj -> filter option predicate s = Run (Ret NONE) s []).
Proof.
  repeat split; intros; subst ob; exec; reflexivity.
Qed.

(** ** OrElse *)

(** C5.  On a Some, [OrElse] returns the reference it was given and does
    not call the alternative: no call is recorded and the store is
    untouched.  On a None it calls the alternative exactly once and its
    outcome and final store are those of that one call, whatever Option the
    alternative returned. *)
Theorem OrElse_spec (s : store) (option : loc) (ob : object)
    (alternative : code loc)
    (Hoption : heap s !! option = Some ob) :
  (forall v, ob = SomeObj v ->
     OrElse option alternative s = Run (Ret option) s []) /\
  (ob = NoneObj ->
     OrElse option alternative s
     = Run (alternative s).1 (alternative s).2 [Call "alternative" []]).
Proof.
  split; intros; subst ob; exec; [reflexivity|].
  destruct (alternative s); reflexivity.
Qed.

(** ** map *)

Lemma map_some_run (s : store) (option : loc) (v : value)
    (f : value -> U -> outcome value * U) :
  heap s !! option = Some (SomeObj v) ->
  map option (fun x => on_user (f x)) s
  = match f v (user s) with
    | (Ret y, u) =>
        Run (Ret (length (heap s))) (Store (heap s ++ [SomeObj y]) u)
          [Call "fn" [v]]
    | (Throw e, u) => Run (Throw e) (Store (heap s) u) [Call "fn" [v]]
    end.
Proof.
  intros H. exec. unfold on_user.
  destruct (f v (user s)) as [[y|e] u]; reflexivity.
Qed.

Lemma map_none_run (s : store) (option : loc) (fn : value -> code value) :
  heap s !! option = Some NoneObj ->
  map option fn s = Run (Ret NONE) s [].
Proof. intros H. exec. reflexivity. Qed.

Lemma map_dangling_run (s : store) (option : loc)
    (fn : value -> code value) :
  heap s !! option = None ->
  map option fn s = Run (Throw TypeError) s [].
Proof. intros H. exec. reflexivity. Qed.

(** Composition for functions that work on the caller's state only
    (they may change it, and may throw): mapping [f] and then [g] and
    mapping [x => g(f(x))] give the same error, or Options with equal
    contents, and the same caller state; both leave every object of the
    store as it was. *)
Lemma map_composition_user_state (s : store) (option : loc)
    (f g : value -> U -> outcome value * U)
    (Hs : loaded s) :
  let twice :=
    (o <- map option (fun x => on_user (f x)) ;;
     map o (fun x => on_user (g x))) s in
  let once := map option (fun x => on_user (composition f g x)) s in
  observe twice = observe once /\
  keeps s (final twice) /\ keeps s (final once).
Proof.
  unfold observe, keeps, bind.
  destruct (heap s !! option) as [[v|]|] eqn:H.
  - rewrite !(map_some_run _ _ _ _ H). unfold composition.
    destruct (f v (user s)) as [[y|e] u]; simpl.
    + rewrite (map_some_run _ _ y) by apply lookup_fresh. simpl.
      destruct (g y u) as [[z|e] u']; simpl.
      * rewrite !lookup_fresh. rewrite <- app_assoc.
        split; [reflexivity|]. split; apply prefix_app_r; reflexivity.
      * split; [reflexivity|]. split; [apply prefix_app_r|]; reflexivity.
    + repeat split; reflexivity.
  - rewrite !(map_none_run _ _ _ H). simpl.
    rewrite (map_none_run _ _ _ Hs). simpl. repeat split; reflexivity.
  - rewrite !(map_dangling_run _ _ _ H). simpl. repeat split; reflexivity.
Qed.

(** *** Renaming and insertion *)

Lemma rename_below (n l : loc) : l < n -> rename n l = l.
Proof.
  intros H. unfold rename. destruct (Nat.leb_spec n l); [lia|reflexivity].
Qed.

Lemma rename_value_scoped (n : loc) (v : value) :
  scoped_value n v -> rename_value n v = v.
Proof.
  induction v as [| | | | |a IHa b IHb|l]; simpl; intros H; try reflexivity.
  - destruct H as [Ha Hb]. by rewrite IHa, IHb.
  - by rewrite rename_below.
Qed.

Lemma rename_object_scoped (n : loc) (o : object) :
  scoped_object n o -> rename_object n o = o.
Proof.
  destruct o as [v|]; simpl; intros H; [|reflexivity].
  by rewrite rename_value_scoped.
Qed.

Lemma rename_heap_scoped (n : loc) (h : list object) :
  Forall (scoped_object n) h -> rename_object n <$> h = h.
Proof.
  induction 1 as [|o h Ho _ IH]; [reflexivity|].
  by rewrite fmap_cons, rename_object_scoped, IH.
Qed.



Lemma insert_object_end (ob : object) (h : list object) :
  Forall (scoped_object (length h)) h ->
  insert_object (length h) ob h = h ++ [ob].
Proof.
  intros H. unfold insert_object.
  rewrite firstn_all, drop_all. simpl. by rewrite rename_heap_scoped.
Qed.

(** Where the objects of [h] are found once [ob] is put in. *)
Lemma lookup_insert_object (n a : loc) (ob : object) (h : list object) :
  n <= length h ->
  insert_object n ob h !! rename n a = rename_object n <$> (h !! a).
Proof.
  intros H. unfold insert_object, rename.
  destruct (Nat.leb_spec n a) as [Hna|Hna].
  - rewrite lookup_app_r; rewrite length_fmap, length_take; [|lia].
    replace (S a - n `min` length h) with (S (a - n)) by lia. simpl.
    rewrite list_lookup_fmap, lookup_drop. do 2 f_equal. lia.
  - rewrite lookup_app_l; [|rewrite length_fmap, length_take; lia].
    by rewrite list_lookup_fmap, lookup_take_lt.
Qed.


(** Reading an Option is within the reach of such code. *)
Lemma opened_address_blind : address_blind opened.
Proof.
  intros x s ob Hs Hx.
  assert (insert_object (length (heap s)) ob (heap s) = heap s ++ [ob])
    as Hend by (by apply insert_object_end).
  destruct x as [| | | | | |l]; simpl; try (rewrite Hend; by split).
  - rewrite Hend. destruct Hx as [Ha Hb].
    by rewrite !rename_value_scoped.
  - simpl in Hx.
    assert (exists o, heap s !! l = Some o) as [o Ho]
      by (by apply lookup_lt_is_Some_2).
    assert ((heap s ++ [ob]) !! l = Some o) as Ho'
      by (by rewrite lookup_app_l).
    unfold plain. steps. rewrite Ho'.
    destruct o as [v|]; steps; rewrite ?Ho'; steps;
      rewrite Hend; (split; [lia|]); [|reflexivity].
    eapply Forall_lookup_1 in Hs; [|exact Ho]. simpl in Hs.
    by rewrite rename_value_scoped.
Qed.

(** ** liftA2, and, or *)

(** C7.  On two Somes holding [a] and [b], [liftA2] calls [fn] once, on
    [a] and [b], and returns a new Some holding the result.  When either
    argument is a None it returns NONE, leaves the store untouched and
    calls nothing: a recorded call means both arguments were Somes. *)
Theorem liftA2_spec (s : store) (option1 option2 : loc) (ob1 ob2 : object)
    (fn : value -> value -> code value)
    (H1 : heap s !! option1 = Some ob1)
    (H2 : heap s !! option2 = Some ob2) :
  (forall a b c s', ob1 = SomeObj a -> ob2 = SomeObj b ->
     fn a b s = (Ret c, s') ->
     exists l s'',
       liftA2 fn option1 option2 s = Run (Ret l) s'' [Call "fn" [a; b]] /\
       heap s'' !! l = Some (SomeObj c) /\
       heap s'' = heap s' ++ [SomeObj c] /\ user s'' = user s') /\
  (ob1 = NoneObj \/ ob2 = NoneObj ->
     liftA2 fn option1 option2 s = Run (Ret NONE) s []) /\
  (trace (liftA2 fn option1 option2 s) <> [] ->
     exists a b, ob1 = SomeObj a /\ ob2 = SomeObj b).
Proof.
  repeat split.
  - intros a b c s' -> -> Hfn. steps. do 2 eexists.
    repeat split. apply lookup_fresh.
  - intros [E | E]; subst; [|destruct ob1]; steps; reflexivity.
  - destruct ob1 as [a|], ob2 as [b|]; steps; try congruence. eauto.
Qed.

(** C8.  When the first argument is a Some, [or] returns that very
    reference, whatever the second argument is; when it is a None, [or]
    returns the second reference as it was given, be it a Some or a None.
    Neither case touches the store. *)
Theorem or_spec (s : store) (option1 option2 : loc) (ob1 : object)
    (H1 : heap s !! option1 = Some ob1) :
  (forall a, ob1 = SomeObj a ->
     or option1 option2 s = Run (Ret option1) s []) /\
  (ob1 = NoneObj -> or option1 option2 s = Run (Ret option2) s []).
Proof. split; intros; subst ob1; exec; reflexivity. Qed.

(** C10.  From any store and on any two references, [and] and [liftA2]
    applied to the pairing function [(a, b) => [a, b]] have the same
    outcome and leave the same store. *)
Theorem and_is_liftA2_pairing (s : store) (option1 option2 : loc) :
  result (and option1 option2 s)
  = result (and_via_liftA2 option1 option2 s) /\
  final (and option1 option2 s)
  = final (and_via_liftA2 option1 option2 s).
Proof.
  unfold and_via_liftA2, pairing.
  destruct (heap s !! option1) as [[a|]|] eqn:H1;
    destruct (heap s !! option2) as [[b|]|] eqn:H2;
    steps; split; reflexivity.
Qed.

(** ** The shared None *)

Lemma keeps_refl (s : store) : keeps s s.
Proof. unfold keeps. reflexivity. Qed.

Lemma keeps_alloc (s s' : store) (o : object) (u : U) :
  keeps s s' -> keeps s (Store (heap s' ++ [o]) u).
Proof. unfold keeps. simpl. apply prefix_app_r. Qed.

Lemma framed_run {A} (f : code A) (s s' : store) (r : outcome A) :
  framed f -> f s = (r, s') -> keeps s s'.
Proof. intros Hf E. specialize (Hf s). by rewrite E in Hf. Qed.

Lemma keeps_loaded (s s' : store) : keeps s s' -> loaded s -> loaded s'.
Proof. unfold keeps, loaded. intros Hk Hs. by eapply prefix_lookup_Some. Qed.

Ltac keep :=
  steps;
  repeat (match goal with
    | |- context [match heap ?s !! ?o with _ => _ end] =>
        destruct (heap s !! o) as [[?|]|]
    | |- context [if ?b then _ else _] => is_var b; destruct b
    | |- context [let (_, _) := ?f ?s in _] =>
        lazymatch type of (f s) with
        | (_ * _)%type =>
            let E := fresh "E" in destruct (f s) as [[?|?] ?] eqn:E
        end
    end; steps);
  eauto using keeps_refl, keeps_alloc, framed_run.

Section Frame.

Variables (s : store) (option option2 : loc).

Lemma some_keeps (v : value) : keeps s (final (some v s)).
Proof. keep. Qed.

Lemma fromNullable_keeps (v : value) : keeps s (final (fromNullable v s)).
Proof. unfold fromNullable. destruct (is_null v || is_undefined v); keep. Qed.

Lemma isSome_keeps : keeps s (final (isSome option s)).
Proof. keep. Qed.

Lemma isNone_keeps : keeps s (final (isNone option s)).
Proof. keep. Qed.

Lemma and_keeps : keeps s (final (and option option2 s)).
Proof. keep. Qed.

Lemma or_keeps : keeps s (final (or option option2 s)).
Proof. keep. Qed.

Lemma unwrapOr_keeps (d : value) : keeps s (final (unwrapOr option d s)).
Proof. keep. Qed.

Lemma unwrap_keeps (msg : Datatypes.option string) :
  keeps s (final (unwrap option msg s)).
Proof. keep. Qed.

Lemma filter_keeps (predicate : value -> code bool) :
  (forall x, framed (predicate x)) ->
  keeps s (final (filter option predicate s)).
Proof. intros Hp. keep. Qed.

Lemma map_keeps (fn : value -> code value) :
  (forall x, framed (fn x)) -> keeps s (final (map option fn s)).
Proof. intros Hf. keep. Qed.

Lemma flatMap_keeps (fn : value -> code loc) :
  (forall x, framed (fn x)) -> keeps s (final (flatMap option fn s)).
Proof. intros Hf. keep. Qed.

Lemma liftA2_keeps (fn : value -> value -> code value) :
  (forall x y, framed (fn x y)) ->
  keeps s (final (liftA2 fn option option2 s)).
Proof. intros Hf. keep. Qed.

Lemma matchOption_keeps (onSome : value -> code loc) (onNone : code loc) :
  (forall x, framed (onSome x)) -> framed onNone ->
  keeps s (final (matchOption option onSome onNone s)).
Proof. intros Hs Hn. keep. Qed.

Lemma OrElse_keeps (alternative : code loc) :
  framed alternative -> keeps s (final (OrElse option alternative s)).
Proof. intros Hn. keep. Qed.

End Frame.

(** C9.  Loading the module creates one None object, at the address
    NONE.  Every call of [none], from any store, returns that address,
    changes nothing and calls nothing, so the results of two calls are
    equal.  In a store where the module is loaded, the reference answers
    [isNone] with true and [isSome] with false, and it keeps doing so: no
    operation of the library, given caller functions that leave the
    existing objects alone, changes the object at NONE. *)
Theorem none_shared_instance
    (s : store) (option option2 : loc)
    (predicate : value -> code bool)
    (fn : value -> code value)
    (fnOpt onSome : value -> code loc)
    (fn2 : value -> value -> code value)
    (onNone alternative : code loc)
    (Hs : loaded s)
    (Hpredicate : forall x, framed (predicate x))
    (Hfn : forall x, framed (fn x))
    (HfnOpt : forall x, framed (fnOpt x))
    (HonSome : forall x, framed (onSome x))
    (Hfn2 : forall x y, framed (fn2 x y))
    (HonNone : framed onNone)
    (Halternative : framed alternative) :
  (forall u, module_init (Store [] u) = Run (Ret NONE) (Store [NoneObj] u) []) /\
  (forall s1 : store, none s1 = Run (Ret NONE) s1 []) /\
  (forall s1 s2 : store, result (none s1) = result (none s2)) /\
  isNone NONE s = Run (Ret true) s [] /\
  isSome NONE s = Run (Ret false) s [] /\
  (forall v, loaded (final (some v s))) /\
  loaded (final (none s)) /\
  loaded (final (isSome option s)) /\
  loaded (final (isNone option s)) /\
  loaded (final (map option fn s)) /\
  loaded (final (flatMap option fnOpt s)) /\
  loaded (final (filter option predicate s)) /\
  loaded (final (liftA2 fn2 option option2 s)) /\
  loaded (final (matchOption option onSome onNone s)) /\
  loaded (final (and option option2 s)) /\
  loaded (final (or option option2 s)) /\
  (forall d, loaded (final (unwrapOr option d s))) /\
  (forall msg, loaded (final (unwrap option msg s))) /\
  loaded (final (OrElse option alternative s)) /\
  (forall v, loaded (final (fromNullable v s))).
Proof.
  split; [reflexivity|]. split; [reflexivity|]. split; [reflexivity|].
  split; [apply (isNone_run _ _ _ Hs)|].
  split; [apply (isSome_run _ _ _ Hs)|].
  repeat split; intros; try exact Hs;
    (eapply keeps_loaded; [|exact Hs]);
    auto using some_keeps, isSome_keeps, isNone_keeps, map_keeps,
      flatMap_keeps, filter_keeps, liftA2_keeps, matchOption_keeps,
      and_keeps, or_keeps, unwrapOr_keeps, unwrap_keeps, OrElse_keeps,
      fromNullable_keeps.
Qed.

(** * Further properties of the library *)

Lemma keeps_lookup (s s' : store) (l : loc) (ob : object) :
  keeps s s' -> heap s !! l = Some ob -> heap s' !! l = Some ob.
Proof. unfold keeps. intros Hk Hl. by eapply prefix_lookup_Some. Qed.

Lemma lookup_next (h : list object) : h !! length h = None.
Proof. apply lookup_ge_None. lia. Qed.

(** ** guards.ts *)

(** X1.  On an Option of the store, [isSome] and [isNone] give opposite
    answers, [isSome] answering true exactly for a Some; neither touches
    the store. *)
Theorem guards_complementary (s : store) (option : loc) (ob : object)
    (Hoption : heap s !! option = Some ob) :
  exists b,
    isSome option s = Run (Ret b) s [] /\
    isNone option s = Run (Ret (negb b)) s [] /\
    (b = true <-> exists v, ob = SomeObj v).
Proof.
  rewrite (isSome_run _ _ _ Hoption), (isNone_run _ _ _ Hoption).
  destruct ob as [v|]; simpl; eexists; repeat split; eauto;
    try discriminate.
  intros [v Hv]. discriminate.
Qed.

(** ** option.ts *)

(** X2.  [some] makes a new object each time: the address it returns held
    nothing before, holds a Some with the very value passed (whatever the
    value, [null] and [undefined] included) and answers [isSome] with
    true; the objects of the store stay as they were; and a second call
    with the same value returns another address. *)
Theorem some_fresh (s : store) (v : value) :
  exists l,
    result (some v s) = Ret l /\
    trace (some v s) = [] /\
    heap s !! l = None /\
    heap (final (some v s)) !! l = Some (SomeObj v) /\
    keeps s (final (some v s)) /\
    user (final (some v s)) = user s /\
    isSome l (final (some v s)) = Run (Ret true) (final (some v s)) [] /\
    result (some v (final (some v s))) <> Ret l.
Proof.
  exists (length (heap s)).
  assert (heap (final (some v s)) !! length (heap s) = Some (SomeObj v))
    as Hl by apply lookup_fresh.
  repeat split; auto using lookup_next, some_keeps.
  - apply (isSome_run _ _ _ Hl).
  - simpl. rewrite length_app. simpl. intros E. injection E. lia.
Qed.

(** ** map *)

(** X3.  On a Some, [map] with a function that returns [y] and leaves the
    existing objects alone gives a new Some holding [y]: another object
    than the one passed in, which still holds its own value.  On a None it
    gives NONE, touches nothing and does not call the function. *)
Theorem map_fresh_wrapper (s : store) (option : loc) (ob : object)
    (fn : value -> code value)
    (Hoption : heap s !! option = Some ob)
    (Hfn : forall x, framed (fn x)) :
  (forall v y s', ob = SomeObj v -> fn v s = (Ret y, s') ->
     exists l s'',
       map option fn s = Run (Ret l) s'' [Call "fn" [v]] /\
       l <> option /\
       heap s'' !! l = Some (SomeObj y) /\
       heap s'' !! option = Some (SomeObj v) /\
       heap s'' = heap s' ++ [SomeObj y] /\ user s'' = user s') /\
  (ob = NoneObj -> map option fn s = Run (Ret NONE) s []).
Proof.
  split.
  - intros v y s' -> Hrun.
    assert (keeps s s') as Hk by (eapply framed_run; eauto).
    pose proof (keeps_lookup _ _ _ _ Hk Hoption) as Ho'.
    exec. do 2 eexists. split; [reflexivity|]. simpl.
    repeat split.
    + apply lookup_lt_Some in Ho'. lia.
    + apply lookup_fresh.
    + rewrite lookup_app_l; [exact Ho'|]. by eapply lookup_lt_Some.
  - intros ->. exec. reflexivity.
Qed.

(** X4.  [map] with [fn] runs exactly as [flatMap] with [x => some(fn(x))]:
    same outcome, same store, same call, from any store and on any
    reference. *)
Theorem map_is_flatMap_some (s : store) (option : loc)
    (fn : value -> code value) :
  map option fn s = flatMap option (some_of fn) s.
Proof.
  destruct (heap s !! option) as [[v|]|] eqn:H; exec; try reflexivity.
  unfold some_of, and_then, plain.
  destruct (fn v s) as [[y|e] s']; reflexivity.
Qed.

(** ** flatMap and matchOption *)

(** X5.  The monad laws of [flatMap], in a store where the module is
    loaded.  On a Some holding [v], [flatMap] with [f] is the one call
    [f(v)], its result not wrapped again.  [flatMap] with [x => some(x)]
    gives an Option with the contents of the one passed in.  Chaining [f]
    and then [g] gives the same outcome and store as [flatMap] with
    [x => flatMap(f(x), g)], whatever [f] and [g] do. *)
Theorem flatMap_monad_laws (s : store) (option : loc)
    (f g : value -> code loc)
    (Hs : loaded s) :
  (forall v, heap s !! option = Some (SomeObj v) ->
     flatMap option f s = Run (f v s).1 (f v s).2 [Call "fn" [v]]) /\
  (forall ob, heap s !! option = Some ob ->
     observe (flatMap option wrap s) = (Ret (Some ob), user s)) /\
  result ((o <- flatMap option f ;; flatMap o g) s)
  = result (flatMap option (chained f g) s) /\
  final ((o <- flatMap option f ;; flatMap o g) s)
  = final (flatMap option (chained f g) s).
Proof.
  unfold loaded in Hs. split; [|split].
  - intros v H. steps. destruct (f v s); reflexivity.
  - intros [v|] H; unfold observe, wrap, plain; steps.
    + by rewrite lookup_fresh.
    + reflexivity.
  - unfold chained, and_then, plain.
    destruct (heap s !! option) as [[v|]|] eqn:H;
      [destruct (f v s) as [[l|e] s'] eqn:E;
       [destruct (heap s' !! l) as [[w|]|] eqn:Hl;
        [destruct (g w s') as [[l'|e'] s''] eqn:E'|..]|]|..];
      steps; split; reflexivity.
Qed.

(** X6.  [matchOption] runs exactly one of its two functions, exactly
    once: [onSome] on the value of a Some, [onNone] on a None; outcome and
    store are those of that one call. *)
Theorem matchOption_dispatch (s : store) (option : loc) (ob : object)
    (onSome : value -> code loc) (onNone : code loc)
    (Hoption : heap s !! option = Some ob) :
  (forall v, ob = SomeObj v ->
     matchOption option onSome onNone s
     = Run (onSome v s).1 (onSome v s).2 [Call "onSome" [v]]) /\
  (ob = NoneObj ->
     matchOption option onSome onNone s
     = Run (onNone s).1 (onNone s).2 [Call "onNone" []]).
Proof.
  split; intros; subst ob; steps.
  - destruct (onSome v s); reflexivity.
  - destruct (onNone s); reflexivity.
Qed.

(** X7.  [flatMap] and [OrElse] are [matchOption] with one branch fixed:
    [flatMap(option, fn)] has the outcome and store of
    [matchOption(option, fn, () => none())], and
    [OrElse(option, alternative)] those of
    [matchOption(option, _ => option, alternative)]. *)
Theorem flatMap_OrElse_by_matchOption (s : store) (option : loc)
    (fn : value -> code loc) (alternative : code loc) :
  (result (flatMap option fn s) = result (matchOption option fn nothing s) /\
   final (flatMap option fn s) = final (matchOption option fn nothing s)) /\
  (result (OrElse option alternative s)
   = result (matchOption option (fun _ => always option) alternative s) /\
   final (OrElse option alternative s)
   = final (matchOption option (fun _ => always option) alternative s)).
Proof.
  unfold nothing, always, plain.
  destruct (heap s !! option) as [[v|]|] eqn:H;
    [destruct (fn v s) as [[l|e] s'] eqn:E
    |destruct (alternative s) as [[l|e] s'] eqn:E|];
    steps; repeat split; reflexivity.
Qed.

(** ** or *)

(** X8.  [or(option1, option2)] has the outcome and store of
    [OrElse(option1, () => option2)]; [or] itself calls nothing. *)
Theorem or_is_OrElse_always (s : store) (option1 option2 : loc) :
  result (or option1 option2 s)
  = result (OrElse option1 (always option2) s) /\
  final (or option1 option2 s) = final (OrElse option1 (always option2) s) /\
  trace (or option1 option2 s) = [].
Proof.
  unfold always.
  destruct (heap s !! option1) as [[v|]|] eqn:H; steps;
    repeat split; reflexivity.
Qed.

(** X9.  [or] is associative on Options of the store:
    [or(or(a, b), c)] and [or(a, or(b, c))] return the same reference (the
    first Some among [a], [b], or else [c]) and leave the store alone. *)
Theorem or_assoc (s : store) (a b c : loc)
    (Ha : allocated s a) (Hb : allocated s b) :
  (ab <- or a b ;; or ab c) s = (bc <- or b c ;; or a bc) s /\
  final ((ab <- or a b ;; or ab c) s) = s.
Proof.
  destruct Ha as [[va|] Ha'], Hb as [[vb|] Hb']; steps; split; reflexivity.
Qed.

(** ** Extraction *)

(** X10.  [unwrapOr] returns the value of a Some, whatever that value is
    ([null] and [undefined] are values like any other and do not bring
    the default in), and the default on a None; it touches nothing.
    Whenever [unwrap] returns, [unwrapOr] returns the same value. *)
Theorem unwrapOr_spec (s : store) (option : loc) (ob : object) (d : value)
    (Hoption : heap s !! option = Some ob) :
  (forall v, ob = SomeObj v -> unwrapOr option d s = Run (Ret v) s []) /\
  (ob = NoneObj -> unwrapOr option d s = Run (Ret d) s []) /\
  (forall msg v, result (unwrap option msg s) = Ret v ->
     result (unwrapOr option d s) = Ret v).
Proof.
  repeat split.
  - intros v ->. steps. reflexivity.
  - intros ->. steps. reflexivity.
  - intros msg v. destruct ob; steps; [auto|discriminate].
Qed.

(** X11.  Extraction after [fromNullable], in a store where the module is
    loaded.  For [null] and [undefined], [unwrapOr] gives the default and
    [unwrap] throws the OptionError; for any other value both give the
    value back. *)
Theorem fromNullable_then_extract (s : store) (v d : value)
    (msg : Datatypes.option string)
    (Hs : loaded s) :
  (nullish v ->
     result ((o <- fromNullable v ;; unwrapOr o d) s) = Ret d /\
     result ((o <- fromNullable v ;; unwrap o msg) s)
     = Throw (OptionError msg)) /\
  (~ nullish v ->
     result ((o <- fromNullable v ;; unwrapOr o d) s) = Ret v /\
     result ((o <- fromNullable v ;; unwrap o msg) s) = Ret v).
Proof.
  unfold loaded in Hs. split; intros Hv.
  - apply nullish_test in Hv. rewrite !bind_unfold.
    unfold fromNullable. rewrite Hv. steps. split; reflexivity.
  - rewrite !bind_unfold, (fromNullable_present _ _ Hv).
    repeat (progress (steps; rewrite ?lookup_fresh)). split; reflexivity.
Qed.

(** ** Exceptions of caller functions *)

(** X12.  An exception thrown by a caller function comes out of the
    operation as it is: the same error, the store as the function left it
    (nothing is allocated afterwards), and the one call recorded. *)
Theorem callback_errors_propagate (s s' : store) (present present2 absent : loc)
    (v v2 : value) (e : error)
    (Hpresent : heap s !! present = Some (SomeObj v))
    (Hpresent2 : heap s !! present2 = Some (SomeObj v2))
    (Habsent : heap s !! absent = Some NoneObj) :
  (forall fn : value -> code value, fn v s = (Throw e, s') ->
     map present fn s = Run (Throw e) s' [Call "fn" [v]]) /\
  (forall fn : value -> code loc, fn v s = (Throw e, s') ->
     flatMap present fn s = Run (Throw e) s' [Call "fn" [v]]) /\
  (forall predicate : value -> code bool, predicate v s = (Throw e, s') ->
     filter present predicate s = Run (Throw e) s' [Call "predicate" [v]]) /\
  (forall fn : value -> value -> code value, fn v v2 s = (Throw e, s') ->
     liftA2 fn present present2 s = Run (Throw e) s' [Call "fn" [v; v2]]) /\
  (forall (onSome : value -> code loc) (onNone : code loc),
     onSome v s = (Throw e, s') ->
     matchOption present onSome onNone s
     = Run (Throw e) s' [Call "onSome" [v]]) /\
  (forall (onSome : value -> code loc) (onNone : code loc),
     onNone s = (Throw e, s') ->
     matchOption absent onSome onNone s = Run (Throw e) s' [Call "onNone" []]) /\
  (forall alternative : code loc, alternative s = (Throw e, s') ->
     OrElse absent alternative s = Run (Throw e) s' [Call "alternative" []]).
Proof.
  repeat split; intros; steps; reflexivity.
Qed.

(** ** and *)

(** X13.  [and] on two Somes gives a new Some holding the pair of their
    values and touches no other object.  When the first argument is a
    None, [and] and [liftA2] give NONE without reading the second
    argument at all (it need not even be an object of the store); when
    only the second is a None, [and] gives NONE too. *)
Theorem and_spec (s : store) (option1 option2 : loc) (ob1 : object)
    (H1 : heap s !! option1 = Some ob1) :
  (forall a b, ob1 = SomeObj a -> heap s !! option2 = Some (SomeObj b) ->
     and option1 option2 s
     = Run (Ret (length (heap s)))
         (Store (heap s ++ [SomeObj (VTuple a b)]) (user s)) []) /\
  (forall a, ob1 = SomeObj a -> heap s !! option2 = Some NoneObj ->
     and option1 option2 s = Run (Ret NONE) s []) /\
  (ob1 = NoneObj ->
     and option1 option2 s = Run (Ret NONE) s [] /\
     forall fn, liftA2 fn option1 option2 s = Run (Ret NONE) s []).
Proof.
  repeat split; intros; subst ob1; steps; reflexivity.
Qed.

(** ** What the operations leave alone *)

(** X14.  No operation changes an object that exists when it is called:
    given caller functions that do the same, the store it leaves still
    holds every object of the store it started from, as it was.  The
    Options passed to an operation are therefore never modified. *)
Theorem operations_never_mutate
    (s : store) (option option2 : loc)
    (predicate : value -> code bool)
    (fn : value -> code value)
    (fnOpt onSome : value -> code loc)
    (fn2 : value -> value -> code value)
    (onNone alternative : code loc)
    (Hpredicate : forall x, framed (predicate x))
    (Hfn : forall x, framed (fn x))
    (HfnOpt : forall x, framed (fnOpt x))
    (HonSome : forall x, framed (onSome x))
    (Hfn2 : forall x y, framed (fn2 x y))
    (HonNone : framed onNone)
    (Halternative : framed alternative) :
  forall (l : loc) (ob : object), heap s !! l = Some ob ->
    (forall v, heap (final (some v s)) !! l = Some ob) /\
    (forall v, heap (final (fromNullable v s)) !! l = Some ob) /\
    heap (final (map option fn s)) !! l = Some ob /\
    heap (final (flatMap option fnOpt s)) !! l = Some ob /\
    heap (final (filter option predicate s)) !! l = Some ob /\
    heap (final (liftA2 fn2 option option2 s)) !! l = Some ob /\
    heap (final (matchOption option onSome onNone s)) !! l = Some ob /\
    heap (final (and option option2 s)) !! l = Some ob /\
    heap (final (or option option2 s)) !! l = Some ob /\
    (forall d, heap (final (unwrapOr option d s)) !! l = Some ob) /\
    (forall msg, heap (final (unwrap option msg s)) !! l = Some ob) /\
    heap (final (OrElse option alternative s)) !! l = Some ob.
Proof.
  intros l ob Hl.
  repeat split; intros; (eapply keeps_lookup; [|exact Hl]);
    auto using some_keeps, map_keeps, flatMap_keeps, filter_keeps,
      liftA2_keeps, matchOption_keeps, and_keeps, or_keeps, unwrapOr_keeps,
      unwrap_keeps, OrElse_keeps, fromNullable_keeps.
Qed.

(** ** Compositions *)

(** X15.  Filtering twice is filtering once by both predicates: in a
    store where the module is loaded and for a first predicate that
    leaves the existing objects alone, [filter(filter(option, p), q)] has
    the outcome and the store of [filter(option, x => p(x) && q(x))]. *)
Theorem filter_filter (s : store) (option : loc)
    (p q : value -> code bool)
    (Hs : loaded s)
    (Hp : forall x, framed (p x)) :
  result ((o <- filter option p ;; filter o q) s)
  = result (filter option (both p q) s) /\
  final ((o <- filter option p ;; filter o q) s)
  = final (filter option (both p q) s).
Proof.
  unfold both, and_then.
  destruct (heap s !! option) as [[v|]|] eqn:H.
  - destruct (p v s) as [[[|]|e] s1] eqn:E.
    + pose proof (keeps_lookup _ _ _ _ (framed_run _ _ _ _ (Hp v) E) H) as H'.
      destruct (q v s1) as [[[|]|e'] s2] eqn:E'; steps; split; reflexivity.
    + pose proof (keeps_lookup _ _ _ _ (framed_run _ _ _ _ (Hp v) E) Hs) as H'.
      steps. split; reflexivity.
    + steps. split; reflexivity.
  - unfold loaded in Hs. steps. split; reflexivity.
  - steps. split; reflexivity.
Qed.

(** X16.  [map] keeps the variant: in a store where the module is loaded
    and with a function that does not throw, [isSome] of the mapped
    Option answers as [isSome] of the Option passed in. *)
Theorem map_preserves_presence (s : store) (option : loc) (ob : object)
    (fn : value -> code value)
    (Hs : loaded s)
    (Hoption : heap s !! option = Some ob)
    (Hfn : forall x, no_throw (fn x)) :
  result ((o <- map option fn ;; isSome o) s) = result (isSome option s).
Proof.
  unfold loaded in Hs. destruct ob as [v|].
  - destruct (no_throw_run _ s (Hfn v)) as (y & s' & E).
    repeat (progress (steps; rewrite ?lookup_fresh)). reflexivity.
  - steps. reflexivity.
Qed.

End Library.

Arguments Run {U A} result final trace.
Arguments result {U A} r.
Arguments final {U A} r.
Arguments trace {U A} r.

(** * Instances

    The statements above, at the store [sample tt] and the sample
    callers. *)

Lemma sample_no_throw :
  (forall x, no_throw (U:=unit) (positive x)) /\
  (forall x, no_throw (U:=unit) (doubled x)) /\
  (forall x, no_throw (U:=unit) (wrap x)) /\
  (forall x y, no_throw (U:=unit) (plus x y)) /\
  no_throw (U:=unit) ten /\ no_throw (U:=unit) nothing.
Proof.
  repeat split; repeat intro; eexists; reflexivity.
Qed.

Lemma unwrap_only_partial_operation_witness :
  unwrap 1 None (sample tt) = Run (Ret (VNum 5)) (sample tt) [] /\
  unwrap NONE (Some "m") (sample tt)
  = Run (Throw {| name := "OptionError"; message := "m" |}) (sample tt) [] /\
  unwrap NONE None (sample tt)
  = Run (Throw {| name := "OptionError"; message := default_message |})
      (sample tt) [] /\
  returns (liftA2 plus 1 2 (sample tt)).
Proof.
  destruct sample_no_throw as (Hp & Hd & Hw & Hpl & Ht & Hn).
  assert (forall o, o < 3 -> allocated (sample tt) o) as Ha.
  { intros [|[|[|o]]] Ho; [eexists; reflexivity ..|lia]. }
  pose proof (unwrap_only_partial_operation (sample tt) 1 2
    positive doubled wrap wrap plus nothing ten
    (Ha 1 ltac:(lia)) (Ha 2 ltac:(lia)) Hp Hd Hw Hw Hpl Hn Ht) as T1.
  pose proof (unwrap_only_partial_operation (sample tt) NONE 2
    positive doubled wrap wrap plus nothing ten
    (Ha NONE ltac:(unfold NONE; lia)) (Ha 2 ltac:(lia))
    Hp Hd Hw Hw Hpl Hn Ht) as T0.
  split; [apply T1; reflexivity|].
  split; [apply T0; reflexivity|].
  split; [apply T0; reflexivity|].
  apply T1.
Defined.

Lemma unwrap_default_message_witness :
  heap (sample tt) !! NONE = Some NoneObj /\
  exists e, unwrap NONE None (sample tt) = Run (Throw e) (sample tt) [] /\
    name e = "OptionError" /\
    message e = "Attempted to unwrap a None value".
Proof.
  split; [reflexivity|].
  apply (unwrap_default_message (sample tt) NONE). reflexivity.
Defined.

(** C2, as the specification words it: the text carried would be
    "attempted to extract from an absent value".  It is not. *)
Lemma unwrap_default_text_counterexample :
  heap (sample tt) !! NONE = Some NoneObj /\
  ~ (exists e, result (unwrap NONE None (sample tt)) = Throw e /\
       message e = "attempted to extract from an absent value").
Proof.
  split; [reflexivity|].
  intros (e & He & Hm). vm_compute in He.
  injection He as <-. discriminate Hm.
Qed.

Lemma fromNullable_spec_witness :
  loaded (sample tt) /\
  (exists l, result (fromNullable (VNum 0) (sample tt)) = Ret l /\
     heap (final (fromNullable (VNum 0) (sample tt))) !! l
     = Some (SomeObj (VNum 0))) /\
  (exists l, result (fromNullable VUndefined (sample tt)) = Ret l /\
     heap (final (fromNullable VUndefined (sample tt))) !! l = Some NoneObj).
Proof.
  split; [reflexivity|]. split.
  - apply (proj2 (fromNullable_spec (sample tt) eq_refl)). simpl. auto.
  - destruct (proj1 (fromNullable_spec (sample tt) eq_refl) VUndefined)
      as (l & Hl & _ & Hnone & _).
    exists l. split; [exact Hl|]. apply Hnone. right. reflexivity.
Defined.

Lemma filter_spec_witness :
  filter 1 positive (sample tt)
  = Run (Ret 1) (sample tt) [Call "predicate" [VNum 5]] /\
  filter 1 negative (sample tt)
  = Run (Ret NONE) (sample tt) [Call "predicate" [VNum 5]] /\
  filter NONE positive (sample tt) = Run (Ret NONE) (sample tt) [].
Proof.
  split; [|split].
  - apply (filter_spec (sample tt) 1 (SomeObj (VNum 5)) positive eq_refl);
      reflexivity.
  - apply (filter_spec (sample tt) 1 (SomeObj (VNum 5)) negative eq_refl);
      reflexivity.
  - apply (filter_spec (sample tt) NONE NoneObj positive eq_refl).
    reflexivity.
Defined.

Lemma OrElse_spec_witness :
  OrElse 1 ten (sample tt) = Run (Ret 1) (sample tt) [] /\
  OrElse NONE ten (sample tt)
  = Run (Ret 3)
      (Store [NoneObj; SomeObj (VNum 5); SomeObj (VNum 7); SomeObj (VNum 10)]
         tt)
      [Call "alternative" []].
Proof.
  split.
  - apply (proj1 (OrElse_spec (sample tt) 1 (SomeObj (VNum 5)) ten eq_refl)
             (VNum 5) eq_refl).
  - apply (proj2 (OrElse_spec (sample tt) NONE NoneObj ten eq_refl) eq_refl).
Defined.





Lemma liftA2_spec_witness :
  (exists l s'',
     liftA2 plus 1 2 (sample tt) = Run (Ret l) s'' [Call "fn" [VNum 5; VNum 7]] /\
     heap s'' !! l = Some (SomeObj (VNum 12))) /\
  liftA2 plus 1 NONE (sample tt) = Run (Ret NONE) (sample tt) [] /\
  liftA2 plus NONE 2 (sample tt) = Run (Ret NONE) (sample tt) [].
Proof.
  split; [|split].
  - destruct (proj1 (liftA2_spec (sample tt) 1 2 (SomeObj (VNum 5))
                       (SomeObj (VNum 7)) plus eq_refl eq_refl)
               (VNum 5) (VNum 7) (VNum 12) (sample tt)
               eq_refl eq_refl eq_refl) as (l & s'' & Hrun & Hl & _).
    exists l, s''. split; assumption.
  - apply (liftA2_spec (sample tt) 1 NONE (SomeObj (VNum 5)) NoneObj plus
             eq_refl eq_refl). right. reflexivity.
  - apply (liftA2_spec (sample tt) NONE 2 NoneObj (SomeObj (VNum 7)) plus
             eq_refl eq_refl). left. reflexivity.
Defined.

Lemma or_spec_witness :
  or 1 2 (sample tt) = Run (Ret 1) (sample tt) [] /\
  or NONE 2 (sample tt) = Run (Ret 2) (sample tt) [] /\
  or NONE NONE (sample tt) = Run (Ret NONE) (sample tt) [].
Proof.
  split; [|split].
  - apply (proj1 (or_spec (sample tt) 1 2 (SomeObj (VNum 5)) eq_refl)
             (VNum 5) eq_refl).
  - apply (proj2 (or_spec (sample tt) NONE 2 NoneObj eq_refl) eq_refl).
  - apply (proj2 (or_spec (sample tt) NONE NONE NoneObj eq_refl) eq_refl).
Defined.

Lemma sample_framed :
  (forall x, framed (U:=unit) (positive x)) /\
  (forall x, framed (U:=unit) (doubled x)) /\
  (forall x, framed (U:=unit) (wrap x)) /\
  (forall x y, framed (U:=unit) (plus x y)) /\
  framed (U:=unit) ten /\ framed (U:=unit) nothing.
Proof.
  repeat split; repeat intro; unfold keeps; simpl;
    try reflexivity; by apply prefix_app_r.
Qed.

Lemma none_shared_instance_witness :
  loaded (sample tt) /\
  isNone NONE (sample tt) = Run (Ret true) (sample tt) [] /\
  loaded (final (map 1 doubled (sample tt))) /\
  loaded (final (OrElse NONE ten (sample tt))).
Proof.
  destruct sample_framed as (Hp & Hd & Hw & Hpl & Ht & Hn).
  pose proof (none_shared_instance (sample tt) 1 2
    positive doubled wrap wrap plus nothing ten
    eq_refl Hp Hd Hw Hw Hpl Hn Ht) as T1.
  pose proof (none_shared_instance (sample tt) NONE 2
    positive doubled wrap wrap plus nothing ten
    eq_refl Hp Hd Hw Hw Hpl Hn Ht) as T0.
  split; [reflexivity|].
  split; [apply T1|]. split; [apply T1|]. apply T0.
Defined.

(** ** Instances of the further properties *)

Lemma guards_complementary_witness :
  exists b,
    isSome 1 (sample tt) = Run (Ret b) (sample tt) [] /\
    isNone 1 (sample tt) = Run (Ret (negb b)) (sample tt) [] /\
    (b = true <-> exists v, SomeObj (VNum 5) = SomeObj v).
Proof.
  exact (guards_complementary (sample tt) 1 (SomeObj (VNum 5)) eq_refl).
Defined.

Lemma map_fresh_wrapper_witness :
  (exists l s'',
     map 1 doubled (sample tt) = Run (Ret l) s'' [Call "fn" [VNum 5]] /\
     l <> 1 /\
     heap s'' !! l = Some (SomeObj (VNum 10)) /\
     heap s'' !! 1 = Some (SomeObj (VNum 5))) /\
  map NONE doubled (sample tt) = Run (Ret NONE) (sample tt) [].
Proof.
  destruct sample_framed as (_ & Hd & _).
  split.
  - destruct (proj1 (map_fresh_wrapper (sample tt) 1 (SomeObj (VNum 5))
                       doubled eq_refl Hd)
               (VNum 5) (VNum 10) (sample tt) eq_refl eq_refl)
      as (l & s'' & Hrun & Hne & Hl & Ho & _).
    exists l, s''. repeat split; assumption.
  - apply (proj2 (map_fresh_wrapper (sample tt) NONE NoneObj doubled
                    eq_refl Hd) eq_refl).
Defined.

Lemma flatMap_monad_laws_witness :
  loaded (sample tt) /\
  flatMap 1 wrap (sample tt)
  = Run (Ret 3)
      (Store [NoneObj; SomeObj (VNum 5); SomeObj (VNum 7); SomeObj (VNum 5)]
         tt)
      [Call "fn" [VNum 5]] /\
  observe (flatMap NONE wrap (sample tt)) = (Ret (Some NoneObj), tt).
Proof.
  split; [reflexivity|]. split.
  - apply (proj1 (flatMap_monad_laws (sample tt) 1 wrap wrap eq_refl)
             (VNum 5) eq_refl).
  - apply (proj1 (proj2 (flatMap_monad_laws (sample tt) NONE wrap wrap
                           eq_refl)) NoneObj eq_refl).
Defined.

Lemma matchOption_dispatch_witness :
  matchOption 1 wrap ten (sample tt)
  = Run (Ret 3)
      (Store [NoneObj; SomeObj (VNum 5); SomeObj (VNum 7); SomeObj (VNum 5)]
         tt)
      [Call "onSome" [VNum 5]] /\
  matchOption NONE wrap ten (sample tt)
  = Run (Ret 3)
      (Store [NoneObj; SomeObj (VNum 5); SomeObj (VNum 7); SomeObj (VNum 10)]
         tt)
      [Call "onNone" []].
Proof.
  split.
  - apply (proj1 (matchOption_dispatch (sample tt) 1 (SomeObj (VNum 5))
                    wrap ten eq_refl) (VNum 5) eq_refl).
  - apply (proj2 (matchOption_dispatch (sample tt) NONE NoneObj wrap ten
                    eq_refl) eq_refl).
Defined.

Lemma or_assoc_witness :
  allocated (sample tt) NONE /\ allocated (sample tt) 1 /\
  bind (or NONE 1) (fun ab => or ab 2) (sample tt)
  = bind (or 1 2) (fun bc => or NONE bc) (sample tt) /\
  bind (or NONE 1) (fun ab => or ab 2) (sample tt)
  = Run (Ret 1) (sample tt) [].
Proof.
  assert (allocated (sample tt) NONE) as H0 by (eexists; reflexivity).
  assert (allocated (sample tt) 1) as H1 by (eexists; reflexivity).
  split; [exact H0|]. split; [exact H1|]. split; [|reflexivity].
  apply (or_assoc (sample tt) NONE 1 2 H0 H1).
Defined.

Lemma unwrapOr_spec_witness :
  unwrapOr 1 (VNum 0) (sample tt) = Run (Ret (VNum 5)) (sample tt) [] /\
  unwrapOr NONE (VNum 0) (sample tt) = Run (Ret (VNum 0)) (sample tt) [].
Proof.
  split.
  - apply (proj1 (unwrapOr_spec (sample tt) 1 (SomeObj (VNum 5)) (VNum 0)
                    eq_refl) (VNum 5) eq_refl).
  - apply (proj1 (proj2 (unwrapOr_spec (sample tt) NONE NoneObj (VNum 0)
                           eq_refl)) eq_refl).
Defined.

Lemma fromNullable_then_extract_witness :
  loaded (sample tt) /\
  result (bind (fromNullable VNull) (fun o => unwrapOr o (VNum 0)) (sample tt))
  = Ret (VNum 0) /\
  result (bind (fromNullable (VNum 3)) (fun o => unwrap o None) (sample tt))
  = Ret (VNum 3).
Proof.
  split; [reflexivity|]. split.
  - apply (proj1 (fromNullable_then_extract (sample tt) VNull (VNum 0) None
                    eq_refl)). left. reflexivity.
  - apply (proj2 (fromNullable_then_extract (sample tt) (VNum 3) (VNum 0)
                    None eq_refl)). intros [H|H]; discriminate H.
Defined.

Lemma callback_errors_propagate_witness :
  map 1 (fun _ s => (Throw (Error "RangeError" "no"), s)) (sample tt)
  = Run (Throw (Error "RangeError" "no")) (sample tt) [Call "fn" [VNum 5]] /\
  OrElse NONE (fun s => (Throw (Error "RangeError" "no"), s)) (sample tt)
  = Run (Throw (Error "RangeError" "no")) (sample tt)
      [Call "alternative" []].
Proof.
  pose proof (callback_errors_propagate (sample tt) (sample tt) 1 2 NONE
                (VNum 5) (VNum 7) (Error "RangeError" "no")
                eq_refl eq_refl eq_refl) as T.
  split.
  - apply (proj1 T). reflexivity.
  - apply T. reflexivity.
Defined.

Lemma and_spec_witness :
  and 1 2 (sample tt)
  = Run (Ret 3)
      (Store [NoneObj; SomeObj (VNum 5); SomeObj (VNum 7);
              SomeObj (VTuple (VNum 5) (VNum 7))] tt) [] /\
  and 1 NONE (sample tt) = Run (Ret NONE) (sample tt) [] /\
  and NONE 99 (sample tt) = Run (Ret NONE) (sample tt) [].
Proof.
  split; [|split].
  - apply (proj1 (and_spec (sample tt) 1 2 (SomeObj (VNum 5)) eq_refl)
             (VNum 5) (VNum 7) eq_refl eq_refl).
  - apply (proj1 (proj2 (and_spec (sample tt) 1 NONE (SomeObj (VNum 5))
                           eq_refl)) (VNum 5) eq_refl eq_refl).
  - apply (proj2 (proj2 (and_spec (sample tt) NONE 99 NoneObj eq_refl))
             eq_refl).
Defined.

Lemma operations_never_mutate_witness :
  heap (sample tt) !! 1 = Some (SomeObj (VNum 5)) /\
  heap (final (map 1 doubled (sample tt))) !! 1 = Some (SomeObj (VNum 5)) /\
  heap (final (and 1 2 (sample tt))) !! 1 = Some (SomeObj (VNum 5)).
Proof.
  destruct sample_framed as (Hp & Hd & Hw & Hpl & Ht & Hn).
  pose proof (operations_never_mutate (sample tt) 1 2
    positive doubled wrap wrap plus nothing ten
    Hp Hd Hw Hw Hpl Hn Ht 1 (SomeObj (VNum 5)) eq_refl) as T.
  split; [reflexivity|]. split; apply T.
Defined.

Lemma filter_filter_witness :
  loaded (sample tt) /\
  result (bind (filter 1 positive) (fun o => filter o negative) (sample tt))
  = Ret NONE /\
  result (filter 1 (both positive negative) (sample tt)) = Ret NONE.
Proof.
  destruct sample_framed as (Hp & _).
  pose proof (proj1 (filter_filter (sample tt) 1 positive negative
                       eq_refl Hp)) as E.
  split; [reflexivity|]. split; [reflexivity|].
  rewrite <- E. reflexivity.
Defined.

Lemma map_preserves_presence_witness :
  loaded (sample tt) /\
  result (bind (map 1 doubled) (fun o => isSome o) (sample tt)) = Ret true /\
  result (bind (map NONE doubled) (fun o => isSome o) (sample tt))
  = Ret false.
Proof.
  destruct sample_no_throw as (_ & Hd & _).
  split; [reflexivity|]. split.
  - rewrite (map_preserves_presence (sample tt) 1 (SomeObj (VNum 5)) doubled
               eq_refl eq_refl Hd). reflexivity.
  - rewrite (map_preserves_presence (sample tt) NONE NoneObj doubled
               eq_refl eq_refl Hd). reflexivity.
Defined.
